(** * ha-voice-usb: the [usb_communication] ESPHome component

    The repository's Python source is
    [components/usb_communication/__init__.py]: the build-time half of
    an ESPHome external component.  It declares the C++ class of the
    component, a configuration schema, and the code-generation hook
    [to_code].  The first part of this development embeds that module;
    the host framework (esphome.codegen, esphome.config_validation) is
    not part of the repository and appears here as an interface. *)

From Stdlib Require Strings.Byte.
From stdpp Require Import gmap strings list fin_maps.

Set Default Proof Using "Type".
Set Warnings "-register-all,-notation-for-abbreviation,-clear-no-such-hyp".

(** ** Python values and C++ names *)

(** A C++ namespace handle, as produced by [cg.esphome_ns.namespace(...)]:
    the path of nested namespace names. *)
Definition Namespace := list string.

(** [MockObj.namespace(name)]: the namespace nested inside [ns]. *)
Definition namespace (ns : Namespace) (name : string) : Namespace :=
  ns ++ [name].

(** A declared C++ class: the namespace it lives in, its name and the
    parent classes passed to [class_]. *)
Inductive MockObjClass : Type :=
  MkClass (cls_ns : Namespace) (cls_id : string) (cls_bases : list MockObjClass).

Definition cls_namespace (c : MockObjClass) : Namespace :=
  match c with MkClass ns _ _ => ns end.
Definition cls_name (c : MockObjClass) : string :=
  match c with MkClass _ n _ => n end.
Definition cls_parents (c : MockObjClass) : list MockObjClass :=
  match c with MkClass _ _ ps => ps end.

(** [ns.class_(name, *parents)]. *)
Definition class_ (ns : Namespace) (name : string)
    (parents : list MockObjClass) : MockObjClass :=
  MkClass ns name parents.

(** [esphome.core.ID]: an identifier of a generated variable.  [id] is
    [None] until the framework has chosen a name for an auto-generated
    identifier. *)
Record ID : Type := MkID {
  id : option string;
  is_declaration : bool;
  type : MockObjClass
}.

(** The Python objects that occur as configuration values. *)
Inductive Value : Type :=
| VNone
| VBool (b : bool)
| VNum (z : Z)
| VStr (s : string)
| VID (i : ID).

(** A configuration is a Python [dict] with string keys. *)
Notation Config := (gmap string Value).

(** Exceptions that can leave [to_code]: the [KeyError] of a failed
    subscript, or whatever a framework call raises. *)
Inductive PyExc : Type :=
| KeyError (key : string)
| HostError (msg : string).

(** ** Configuration schemas

    The schema language belongs to the host framework
    (esphome.config_validation); the module only builds a schema with
    it.  What follows describes the part the module relies on: dict
    schemas with marker keys, [extend], and the validation of a
    configuration against a schema. *)

(** Schema keys are marker objects.  [cv.Optional] may carry a
    default, which is validated like a supplied value when the key is
    absent. *)
Inductive Marker : Type :=
| Required (key : string)
| Optional (key : string) (default : option Value).

Definition marker_key (m : Marker) : string :=
  match m with
  | Required k => k
  | Optional k _ => k
  end.

(** A validator either returns the converted value or rejects it. *)
Definition Validator := Value -> option Value.

(** The dict handed to [cv.Schema]: entries in insertion order. *)
Definition Schema := list (Marker * Validator).

Definition schema_keys (s : Schema) : list string :=
  map (fun e => marker_key (fst e)) s.

(** [Schema.extend(other)]: the entries of [other] are added; an entry
    of [self] with the same key is replaced. *)
Definition extend (self other : Schema) : Schema :=
  filter (fun e => marker_key (fst e) ∉ schema_keys other) self ++ other.

(** Why a configuration is rejected. *)
Inductive Invalid : Type :=
| ExtraKeysNotAllowed
| RequiredKeyMissing (key : string)
| InvalidValue (key : string).

Definition validate_value (k : string) (v : Validator) (x : Value)
    (out : Config) : Invalid + Config :=
  match v x with
  | Some y => inr (<[k := y]> out)
  | None => inl (InvalidValue k)
  end.

(** One schema entry applied to the input [data], adding to [out]. *)
Definition validate_entry (data : Config) (e : Marker * Validator)
    (out : Config) : Invalid + Config :=
  let k := marker_key (fst e) in
  match data !! k with
  | Some x => validate_value k (snd e) x out
  | None =>
      match fst e with
      | Required _ => inl (RequiredKeyMissing k)
      | Optional _ (Some d) => validate_value k (snd e) d out
      | Optional _ None => inr out
      end
  end.

Fixpoint validate_entries (data : Config) (s : Schema) (out : Config)
    : Invalid + Config :=
  match s with
  | [] => inr out
  | e :: s' =>
      match validate_entry data e out with
      | inl err => inl err
      | inr out' => validate_entries data s' out'
      end
  end.

(** Calling a schema on a configuration: keys the schema does not know
    are refused, then every entry is validated. *)
Definition validate (s : Schema) (data : Config) : Invalid + Config :=
  if bool_decide (dom data ⊆ list_to_set (schema_keys s))
  then validate_entries data s ∅
  else inl ExtraKeysNotAllowed.

(** ** The host framework's constants *)

(** What the module imports from the framework and does not define
    itself: the key [CONF_ID], the root namespace [cg.esphome_ns], the
    base class [cg.Component], the schema [cv.COMPONENT_SCHEMA] and the
    check of identifier names used by [cv.declare_id].  The framework's
    component schema has no identifier entry of its own. *)
Class Host : Type := {
  CONF_ID : string;
  esphome_ns : Namespace;
  Component : MockObjClass;
  COMPONENT_SCHEMA : Schema;
  validate_id_name : Value -> option string;
  COMPONENT_SCHEMA_no_id : CONF_ID ∉ schema_keys COMPONENT_SCHEMA
}.

(** [cv.GenerateID(key=CONF_ID)]: an optional key whose default is
    [None], so that the validator always runs. *)
Definition GenerateID `{Host} : Marker := Optional CONF_ID (Some VNone).

(** [cv.declare_id(type)]: turns the configured name, or [None], into
    an [ID] that declares a variable of class [type]. *)
Definition declare_id `{Host} (type : MockObjClass) : Validator :=
  fun value =>
    match value with
    | VNone => Some (VID (MkID None true type))
    | _ =>
        match validate_id_name value with
        | Some name => Some (VID (MkID (Some name) true type))
        | None => None
        end
    end.

(** ** The module [components/usb_communication/__init__.py] *)

Section Module_usb_communication.
Context `{Host}.

(** [DEPENDENCIES = []] *)
Definition DEPENDENCIES : list string := [].

(** [usb_communication_ns = cg.esphome_ns.namespace("usb_communication")] *)
Definition usb_communication_ns : Namespace :=
  namespace esphome_ns "usb_communication".

(** [USBCommunicationComponent = usb_communication_ns.class_(
       "USBCommunicationComponent", cg.Component)] *)
Definition USBCommunicationComponent : MockObjClass :=
  class_ usb_communication_ns "USBCommunicationComponent" [Component].

(** The dict literal given to [cv.Schema]. *)
Definition own_schema : Schema :=
  [ (GenerateID, declare_id USBCommunicationComponent) ].

(** [CONFIG_SCHEMA = cv.Schema({...}).extend(cv.COMPONENT_SCHEMA)] *)
Definition CONFIG_SCHEMA : Schema :=
  extend own_schema COMPONENT_SCHEMA.

End Module_usb_communication.

(** ** Code generation as a program over framework calls *)

Section Codegen.
Context {Var : Type}.

(** The two framework entry points [to_code] uses.  [Var] is the
    framework's handle on a generated C++ variable. *)
Inductive cgE : Type -> Type :=
| new_Pvariable (id_ : Value) : cgE Var
| register_component (var : Var) (config : Config) : cgE Var.

(** A code-generation coroutine: it returns, raises, or performs a
    framework call and continues with its result. *)
Inductive Cg (A : Type) : Type :=
| Ret (a : A)
| Raise (e : PyExc)
| Vis {R : Type} (e : cgE R) (k : R -> Cg A).

Arguments Ret {A} a.
Arguments Raise {A} e.
Arguments Vis {A R} e k.

Fixpoint bind {A B : Type} (m : Cg A) (f : A -> Cg B) : Cg B :=
  match m with
  | Ret a => f a
  | Raise e => Raise e
  | Vis e k => Vis e (fun r => bind (k r) f)
  end.

Definition call {R : Type} (e : cgE R) : Cg R := Vis e Ret.

(** The subscript [d[k]], raising [KeyError] on a missing key. *)
Definition getitem (d : Config) (k : string) : Cg Value :=
  match d !! k with
  | Some v => Ret v
  | None => Raise (KeyError k)
  end.

(** The framework calls as they are issued, with their arguments. *)
Inductive Call : Type :=
| CallNewPvariable (id_ : Value)
| CallRegisterComponent (var : Var) (config : Config).

Definition call_of {R : Type} (e : cgE R) : Call :=
  match e with
  | new_Pvariable i => CallNewPvariable i
  | register_component v c => CallRegisterComponent v c
  end.

(** A call without the configuration it was given: the identifier
    instantiated, or the variable registered. *)
Definition call_subject (c : Call) : Value + Var :=
  match c with
  | CallNewPvariable i => inl i
  | CallRegisterComponent v _ => inr v
  end.

(** An implementation of the framework over its own state [St]: each
    call returns a result or raises. *)
Definition Handler (St : Type) : Type :=
  forall R : Type, cgE R -> St -> (PyExc + R) * St.

(** Running a coroutine against a framework: the outcome, the final
    framework state and the calls made, in order. *)
Fixpoint run {St A : Type} (h : Handler St) (p : Cg A) (s : St)
    : (PyExc + A) * St * list Call :=
  match p with
  | Ret a => (inr a, s, [])
  | Raise e => (inl e, s, [])
  | Vis e k =>
      match h _ e s with
      | (inl err, s') => (inl err, s', [call_of e])
      | (inr r, s') =>
          let '(res, s'', tr) := run h (k r) s' in
          (res, s'', call_of e :: tr)
      end
  end.

(** A framework none of whose calls raises. *)
Definition no_raise {St : Type} (h : Handler St) : Prop :=
  forall (R : Type) (e : cgE R) (s : St), exists r s', h R e s = (inr r, s').

End Codegen.

Arguments cgE Var : clear implicits.
Arguments Cg Var A : clear implicits.
Arguments Call Var : clear implicits.
Arguments Handler Var St : clear implicits.
Arguments Ret {Var A} a.
Arguments Raise {Var A} e.
Arguments Vis {Var A R} e k.

#[global] Instance Cg_ret {Var : Type} : MRet (Cg Var) := fun A a => Ret a.
#[global] Instance Cg_bind {Var : Type} : MBind (Cg Var) :=
  fun A B f m => bind m f.

Section to_code.
Context `{Host} {Var : Type}.

(** [async def to_code(config):
       var = cg.new_Pvariable(config[CONF_ID])
       await cg.register_component(var, config)] *)
Definition to_code (config : Config) : Cg Var unit :=
  id_ ← getitem config CONF_ID;
  var ← call (new_Pvariable id_);
  _ ← call (register_component var config);
  mret tt.

End to_code.

(** * The driver behind the component

    The C++ class [USBCommunicationComponent] that [to_code]
    instantiates is not among the repository's Python sources.  Its
    framing engine, send queue and transport are modelled below from
    the specification's sections 3, 4 and 8. *)

Notation byte := Byte.byte.

#[global] Instance byte_eq_dec : EqDecision byte := Byte.byte_eq_dec.

(** Modelled from the spec: the wire-format constants of the driver,
    which the specification leaves to the implementation: the start
    marker, the maximum payload size and the checksum function. *)
Class Framing : Type := {
  START_MARKER : byte;
  MAX_FRAME_SIZE : nat;
  checksum : list byte -> byte
}.

(** Modelled from the spec: the Frame of section 3,
    [[start marker][length][payload bytes][checksum]], with a one-byte
    length and a one-byte checksum as in the example of section 8. *)
Record Frame : Type := MkFrame {
  length_field : byte;
  payload : list byte;
  checksum_field : byte
}.

Section FramingEngine.
Context `{Framing}.

(** Modelled from the spec: the Frame invariant of section 3: the
    length matches the payload byte count, does not exceed the
    configured maximum, and the checksum is computed over length and
    payload. *)
Definition valid_frame (F : Frame) : bool :=
  bool_decide (Byte.to_nat (length_field F) = length (payload F))
  && bool_decide (length (payload F) ≤ MAX_FRAME_SIZE)
  && bool_decide (checksum_field F = checksum (length_field F :: payload F)).

(** Modelled from the spec: the encoder of the Framing Engine, which
    lays a frame out as start marker, length, payload, checksum. *)
Definition encode (F : Frame) : list byte :=
  START_MARKER :: length_field F :: payload F ++ [checksum_field F].

(** Modelled from the spec: building the frame of a message payload;
    refused when the payload does not fit the length byte or exceeds
    the maximum frame size. *)
Definition make_frame (p : list byte) : option Frame :=
  match Byte.of_nat (length p) with
  | Some len =>
      if bool_decide (length p ≤ MAX_FRAME_SIZE)
      then Some (MkFrame len p (checksum (len :: p)))
      else None
  | None => None
  end.

(** Modelled from the spec: the states of the Framing Engine's state
    machine (section 4.2). *)
Inductive State : Type :=
| AWAIT_START
| READ_LENGTH
| READ_PAYLOAD
| READ_CHECKSUM
| DISPATCH.

(** Modelled from the spec: the Framing Engine between two bytes: its
    state, the declared length and the payload bytes received so far
    (the partial frame kept in the ReceiveBuffer), and the error
    counters. *)
Record Engine : Type := MkEngine {
  state : State;
  declared : byte;
  buffer : list byte;
  checksum_errors : nat;
  oversize_errors : nat
}.

(** Modelled from the spec: the engine after [setup()]: awaiting a
    start marker, buffer cleared, counters at zero. *)
Definition engine_init : Engine :=
  MkEngine AWAIT_START Byte.x00 [] 0 0.

Definition goto (st : State) (e : Engine) : Engine :=
  MkEngine st (declared e) (buffer e) (checksum_errors e) (oversize_errors e).

(** Modelled from the spec: the transition rules of section 4.2 for one
    incoming byte.  A frame that passes its checksum puts the engine in
    [DISPATCH]. *)
Definition on_byte (e : Engine) (b : byte) : Engine :=
  match state e with
  | AWAIT_START | DISPATCH =>
      if decide (b = START_MARKER) then goto READ_LENGTH e else goto AWAIT_START e
  | READ_LENGTH =>
      if decide (MAX_FRAME_SIZE < Byte.to_nat b)
      then MkEngine AWAIT_START (declared e) [] (checksum_errors e)
                    (S (oversize_errors e))
      else MkEngine (if decide (Byte.to_nat b = 0) then READ_CHECKSUM else READ_PAYLOAD)
                    b [] (checksum_errors e) (oversize_errors e)
  | READ_PAYLOAD =>
      let buf := buffer e ++ [b] in
      MkEngine (if decide (length buf = Byte.to_nat (declared e))
                then READ_CHECKSUM else READ_PAYLOAD)
               (declared e) buf (checksum_errors e) (oversize_errors e)
  | READ_CHECKSUM =>
      if decide (b = checksum (declared e :: buffer e))
      then goto DISPATCH e
      else MkEngine AWAIT_START (declared e) [] (S (checksum_errors e))
                    (oversize_errors e)
  end.

(** Modelled from the spec: in [DISPATCH] the frame is handed over and
    the engine returns to [AWAIT_START]. *)
Definition dispatch (e : Engine) (b : byte) : Engine * option Frame :=
  match state e with
  | DISPATCH =>
      (MkEngine AWAIT_START (declared e) [] (checksum_errors e) (oversize_errors e),
       Some (MkFrame (declared e) (buffer e) b))
  | _ => (e, None)
  end.

(** Modelled from the spec: one byte through the engine: the
    transition, then the dispatch of a completed frame. *)
Definition step (e : Engine) (b : byte) : Engine * option Frame :=
  dispatch (on_byte e b) b.

(** Modelled from the spec: one poll's worth of input driven through
    the state machine; the frames dispatched, in order. *)
Fixpoint feed (e : Engine) (bytes : list byte) : Engine * list Frame :=
  match bytes with
  | [] => (e, [])
  | b :: bytes' =>
      let '(e1, out) := step e b in
      let '(e2, outs) := feed e1 bytes' in
      (e2, match out with Some F => F :: outs | None => outs end)
  end.

(** Modelled from the spec: [decode], the frames a fresh engine
    dispatches for a byte stream. *)
Definition decode (bytes : list byte) : list Frame :=
  (feed engine_init bytes).2.

End FramingEngine.

(** Modelled from the spec: the Transport Adapter of section 4.1 seen
    from the driver: the bytes the link has accepted so far, in order,
    and how many more it accepts before it stops being ready. *)
Record Transport : Type := MkTransport {
  wire : list byte;
  room : nat
}.

(** Modelled from the spec: [write(bytes) -> count written],
    non-blocking; it accepts a prefix of [bytes], and returns 0 when
    the link is not ready. *)
Definition write (t : Transport) (bytes : list byte) : nat * Transport :=
  let n := min (room t) (length bytes) in
  (n, MkTransport (wire t ++ take n bytes) (room t - n)).

(** Modelled from the spec: the SendQueue of section 3: the pending
    frames in order, bounded by [capacity], and the cursor into the
    frame being written. *)
Record SendQueue : Type := MkSendQueue {
  capacity : nat;
  pending : list Frame;
  cursor : nat
}.

(** Modelled from the spec: [enqueue(message) -> success|REJECTED_FULL];
    the error of section 7 is called [QueueFull]. *)
Inductive EnqueueResult : Type :=
| Success
| QueueFull.

(** Modelled from the spec: [enqueue] of section 4.3. *)
Definition enqueue (q : SendQueue) (F : Frame) : EnqueueResult * SendQueue :=
  if decide (capacity q ≤ length (pending q))
  then (QueueFull, q)
  else (Success, MkSendQueue (capacity q) (pending q ++ [F]) (cursor q)).

Section SendPath.
Context `{Framing}.

(** Modelled from the spec: draining the queue in one poll cycle.  The
    current frame is written from the cursor on; a frame written to
    its end is dequeued and the next one started; a partial write
    advances the cursor and ends the cycle. *)
Fixpoint drain (frames : list Frame) (cur : nat) (t : Transport)
    : list Frame * nat * Transport :=
  match frames with
  | [] => ([], 0, t)
  | F :: rest =>
      let '(n, t') := write t (drop cur (encode F)) in
      if decide (cur + n = length (encode F))
      then drain rest 0 t'
      else (F :: rest, cur + n, t')
  end.

(** Modelled from the spec: the send half of one [loop()] call, in
    which the link accepts at most [ready] bytes. *)
Definition poll (ready : nat) (q : SendQueue) (t : Transport)
    : SendQueue * Transport :=
  let '(frames, cur, t') := drain (pending q) (cursor q) (MkTransport (wire t) ready) in
  (MkSendQueue (capacity q) frames cur, t').

(** Modelled from the spec: successive [loop()] calls; in the cycle
    for each [r] of [readies] the link accepts at most [r] bytes. *)
Fixpoint polls (readies : list nat) (q : SendQueue) (t : Transport)
    : SendQueue * Transport :=
  match readies with
  | [] => (q, t)
  | r :: rs => let '(q', t') := poll r q t in polls rs q' t'
  end.

(** The bytes of [frames] not yet accepted by the link when the cursor
    into the first of them is [cur]. *)
Definition remaining (frames : list Frame) (cur : nat) : list byte :=
  drop cur (concat (encode <$> frames)).

(** The bytes of the queue that the link has not accepted yet. *)
Definition unsent (q : SendQueue) : list byte :=
  remaining (pending q) (cursor q).

(** The cursor points inside the frame at the head of the queue, and
    is 0 when the queue is empty. *)
Definition cursor_inside (frames : list Frame) (cur : nat) : Prop :=
  match frames with
  | [] => cur = 0
  | F :: _ => cur < length (encode F)
  end.

End SendPath.

(** * Sample instances

    Concrete values for the interfaces above, on which the statements
    below are exercised. *)

(** A validator for numbers, for the sample component schema. *)
Definition float_ : Validator :=
  fun value => match value with VNum z => Some (VNum z) | _ => None end.

(** A host whose component schema offers one optional number. *)
Definition sample_host : Host.
Proof.
  refine {|
    CONF_ID := "id";
    esphome_ns := ["esphome"];
    Component := MkClass ["esphome"] "Component" [];
    COMPONENT_SCHEMA := [ (Optional "setup_priority" None, float_) ];
    validate_id_name := fun value =>
      match value with VStr s => Some s | _ => None end
  |}.
  by intros ?%list_elem_of_singleton.
Defined.

(** A framework that numbers the variables it creates; its state is
    the number of variables created so far. *)
Definition counting_framework : Handler nat nat :=
  fun R e =>
    match e in cgE _ R return nat -> (PyExc + R) * nat with
    | new_Pvariable _ => fun s => (inr s, S s)
    | register_component v _ => fun s => (inr v, s)
    end.

(** A framework whose registration always raises. *)
Definition refusing_framework : Handler nat nat :=
  fun R e =>
    match e in cgE _ R return nat -> (PyExc + R) * nat with
    | new_Pvariable _ => fun s => (inr s, S s)
    | register_component _ _ => fun s => (inl (HostError "not a component"), s)
    end.

(** A framework whose instantiation always raises. *)
Definition failing_framework : Handler nat nat :=
  fun R e =>
    match e in cgE _ R return nat -> (PyExc + R) * nat with
    | new_Pvariable _ => fun s => (inl (HostError "no such class"), S s)
    | register_component v _ => fun s => (inr v, s)
    end.

(** A framework that writes statements: its state is the generated
    code.  Its registration sets the priority first when the
    configuration gives one. *)
Definition writing_framework : Handler nat (list string) :=
  fun R e =>
    match e in cgE _ R return list string -> (PyExc + R) * list string with
    | new_Pvariable _ =>
        fun s => (inr (length s), s ++ ["new"])
    | register_component v config =>
        fun s =>
          (inr v,
           s ++ match config !! "setup_priority" with
                | Some _ => ["set_setup_priority"; "register_component"]
                | None => ["register_component"]
                end)
    end.

(** The identifier the sample host generates when none is configured. *)
Definition generated_id : ID :=
  MkID None true (@USBCommunicationComponent sample_host).

Definition config_plain : Config := {[ "id" := VID generated_id ]}.

Definition config_priority : Config :=
  <[ "setup_priority" := VNum 100 ]> config_plain.

(** Exclusive-or of two bytes. *)
Definition byte_xor (a b : byte) : byte :=
  default Byte.x00 (Byte.of_N (N.lxor (Byte.to_N a) (Byte.to_N b))).

(** A wire format with start marker 0x7E, payloads of at most 64
    bytes and an exclusive-or checksum. *)
Definition sample_framing : Framing := {|
  START_MARKER := Byte.x7e;
  MAX_FRAME_SIZE := 64;
  checksum := foldr byte_xor Byte.x00
|}.

(** The payload "PING". *)
Definition ping : list byte := [Byte.x50; Byte.x49; Byte.x4e; Byte.x47].

Definition ping_frame : Frame :=
  MkFrame Byte.x04 ping (@checksum sample_framing (Byte.x04 :: ping)).

(** The payload "OK". *)
Definition ok_frame : Frame :=
  MkFrame Byte.x02 [Byte.x4f; Byte.x4b]
          (@checksum sample_framing [Byte.x02; Byte.x4f; Byte.x4b]).

(** * Properties of the code-generation module *)

Section CodegenFacts.
Context `{Host}.

Lemma CONFIG_SCHEMA_entries :
  CONFIG_SCHEMA = (GenerateID, declare_id USBCommunicationComponent) :: COMPONENT_SCHEMA.
Proof.
  unfold CONFIG_SCHEMA, extend, own_schema.
  cbn. rewrite decide_True; [done|].
  apply COMPONENT_SCHEMA_no_id.
Qed.

Lemma validate_entry_other data e k out out' :
  k ≠ marker_key e.1 →
  validate_entry data e out = inr out' →
  out' !! k = out !! k.
Proof.
  intros Hk. unfold validate_entry, validate_value.
  repeat case_match; intros; simplify_eq; by rewrite ?lookup_insert_ne.
Qed.

Lemma validate_entries_other data s k :
  k ∉ schema_keys s →
  ∀ out out', validate_entries data s out = inr out' → out' !! k = out !! k.
Proof.
  induction s as [|e s IH]; simpl; intros Hk out out' Hv.
  - by simplify_eq.
  - apply not_elem_of_cons in Hk as [Hne Hk].
    destruct (validate_entry data e out) as [|out1] eqn:He; [done|].
    rewrite (IH Hk _ _ Hv). by eapply validate_entry_other.
Qed.

Lemma declare_id_result ty x y :
  declare_id ty x = Some y →
  ∃ i, y = VID i ∧ type i = ty ∧ is_declaration i = true.
Proof.
  unfold declare_id. repeat case_match; intros; simplify_eq; eauto.
Qed.

(** Every configuration the schema accepts carries, under [CONF_ID],
    an identifier that declares a [USBCommunicationComponent]. *)
Lemma validated_has_id raw config :
  validate CONFIG_SCHEMA raw = inr config →
  ∃ i, config !! CONF_ID = Some (VID i)
       ∧ type i = USBCommunicationComponent ∧ is_declaration i = true.
Proof.
  unfold validate. case_bool_decide; [|done].
  rewrite CONFIG_SCHEMA_entries. simpl.
  destruct (validate_entry _ _ _) as [|out1] eqn:He; [done|].
  intros Hv.
  rewrite (validate_entries_other _ _ _ COMPONENT_SCHEMA_no_id _ _ Hv).
  revert He. unfold validate_entry, validate_value, GenerateID. simpl.
  repeat case_match; intros; simplify_eq; rewrite lookup_insert_eq.
  - match goal with
    | Hd : declare_id _ _ = Some _ |- _ =>
        apply declare_id_result in Hd as (i & -> & ? & ?); eauto
    end.
  - eauto.
Qed.

End CodegenFacts.

Section ToCodeFacts.
Context `{Host} {Var St : Type} (h : Handler Var St).

(** What [to_code] does when the key is there: the instantiation,
    then, if that returned, the registration of its result. *)
Lemma run_to_code config v s :
  config !! CONF_ID = Some v →
  run h (to_code config) s =
    match h _ (new_Pvariable v) s with
    | (inl e, s1) => (inl e, s1, [CallNewPvariable v])
    | (inr var, s1) =>
        match h _ (register_component var config) s1 with
        | (inl e, s2) =>
            (inl e, s2, [CallNewPvariable v; CallRegisterComponent var config])
        | (inr _, s2) =>
            (inr (), s2, [CallNewPvariable v; CallRegisterComponent var config])
        end
    end.
Proof.
  intros Hid. unfold to_code, getitem. rewrite Hid. cbn.
  destruct (h _ (new_Pvariable v) s) as [[e|var] s1]; [done|]. cbn.
  by destruct (h _ (register_component var config) s1) as [[e|r] s2].
Qed.

Lemma run_to_code_missing config s :
  config !! CONF_ID = None →
  run h (to_code config) s = (inl (KeyError CONF_ID), s, []).
Proof. intros Hid. unfold to_code, getitem. by rewrite Hid. Qed.

Lemma run_to_code_no_raise config v s :
  config !! CONF_ID = Some v →
  no_raise h →
  ∃ var s1 r s2,
    h _ (new_Pvariable v) s = (inr var, s1)
    ∧ h _ (register_component var config) s1 = (inr r, s2)
    ∧ run h (to_code config) s
      = (inr (), s2, [CallNewPvariable v; CallRegisterComponent var config]).
Proof.
  intros Hid Hh. rewrite (run_to_code _ _ _ Hid).
  destruct (Hh _ (new_Pvariable v) s) as (var & s1 & E1).
  destruct (Hh _ (register_component var config) s1) as (r & s2 & E2).
  exists var, s1, r, s2. by rewrite E1, E2.
Qed.

(** C1: for every configuration accepted by [CONFIG_SCHEMA], running
    [to_code] against a framework whose calls return issues exactly
    two calls: [new_Pvariable] on the configuration's [CONF_ID] entry,
    then [register_component] on the variable that call returned, and
    it finishes without an exception. *)
Theorem to_code_instantiates_then_registers raw config s :
  validate CONFIG_SCHEMA raw = inr config →
  no_raise h →
  ∃ i var s1 r s2,
    config !! CONF_ID = Some (VID i)
    ∧ h _ (new_Pvariable (VID i)) s = (inr var, s1)
    ∧ h _ (register_component var config) s1 = (inr r, s2)
    ∧ run h (to_code config) s
      = (inr (), s2, [CallNewPvariable (VID i); CallRegisterComponent var config]).
Proof.
  intros (i & Hid & _)%validated_has_id Hh.
  destruct (run_to_code_no_raise _ _ s Hid Hh) as (var & s1 & r & s2 & ?).
  by exists i, var, s1, r, s2.
Qed.

(** C10: [to_code] subscripts the configuration without a guard.  With
    the key present it raises nothing of its own: against a framework
    whose calls return it finishes normally.  With the key absent the
    lookup's [KeyError] leaves [to_code] before any framework call is
    made.  Configurations accepted by [CONFIG_SCHEMA] have the key. *)
Theorem to_code_lookup_unguarded config s :
  (∀ v, config !! CONF_ID = Some v → no_raise h →
        (run h (to_code config) s).1.1 = inr ())
  ∧ (config !! CONF_ID = None →
        run h (to_code config) s = (inl (KeyError CONF_ID), s, []))
  ∧ (∀ raw, validate CONFIG_SCHEMA raw = inr config →
        is_Some (config !! CONF_ID)).
Proof.
  split_and!.
  - intros v Hid Hh.
    destruct (run_to_code_no_raise _ _ s Hid Hh) as (? & ? & ? & ? & _ & _ & ->).
    done.
  - apply run_to_code_missing.
  - intros raw (i & Hid & _)%validated_has_id. by rewrite Hid.
Qed.

(** The calls of one run agree on everything except the configuration
    handed to [register_component], whenever the identifier entries
    agree. *)
Lemma run_to_code_subjects c1 c2 s :
  c1 !! CONF_ID = c2 !! CONF_ID →
  call_subject <$> (run h (to_code c1) s).2
  = call_subject <$> (run h (to_code c2) s).2.
Proof.
  intros Heq. destruct (c1 !! CONF_ID) as [v|] eqn:H1.
  - rewrite (run_to_code c1 v s H1), (run_to_code c2 v s (eq_sym Heq)).
    destruct (h _ (new_Pvariable v) s) as [[e|var] s1]; [done|].
    destruct (h _ (register_component var c1) s1) as [[?|?] ?];
      by destruct (h _ (register_component var c2) s1) as [[?|?] ?].
  - by rewrite (run_to_code_missing c1 s H1), (run_to_code_missing c2 s (eq_sym Heq)).
Qed.

(** C9, amended: two configurations that agree on the [CONF_ID] entry
    make [to_code] issue calls of the same kinds in the same order,
    instantiating the same identifier and registering the same
    variable; every registration call receives the whole configuration
    [to_code] was given. *)
Theorem to_code_same_subjects c1 c2 s :
  c1 !! CONF_ID = c2 !! CONF_ID →
  call_subject <$> (run h (to_code c1) s).2
  = call_subject <$> (run h (to_code c2) s).2
  ∧ (∀ var c, CallRegisterComponent var c ∈ (run h (to_code c1) s).2 → c = c1)
  ∧ (∀ var c, CallRegisterComponent var c ∈ (run h (to_code c2) s).2 → c = c2).
Proof.
  intros Heq. split; [by apply run_to_code_subjects|].
  assert (∀ c0 var c, CallRegisterComponent var c ∈ (run h (to_code c0) s).2 → c = c0)
    as Hreg; [|by split; apply Hreg].
  intros c0 var c. destruct (c0 !! CONF_ID) as [v|] eqn:H0.
  - rewrite (run_to_code c0 v s H0).
    destruct (h _ (new_Pvariable v) s) as [[e|var0] s1]; simpl.
    + intros Hin%list_elem_of_singleton. done.
    + destruct (h _ (register_component var0 c0) s1) as [[?|?] ?]; simpl;
        intros Hin; apply elem_of_cons in Hin as [?|Hin%list_elem_of_singleton];
        by simplify_eq.
  - rewrite (run_to_code_missing c0 s H0). simpl. by intros ?%elem_of_nil.
Qed.

End ToCodeFacts.

Section ModuleFacts.
Context `{Host}.

(** C2: the component's class is named [USBCommunicationComponent],
    lives in the namespace [usb_communication] of the framework's root
    namespace, and has the framework's [Component] as its one parent;
    it is the class of the identifier that every accepted configuration
    carries, hence of the variable [to_code] creates and registers. *)
Theorem USBCommunicationComponent_declared :
  cls_name USBCommunicationComponent = "USBCommunicationComponent"
  ∧ cls_namespace USBCommunicationComponent = esphome_ns ++ ["usb_communication"]
  ∧ cls_parents USBCommunicationComponent = [Component]
  ∧ (∀ raw config, validate CONFIG_SCHEMA raw = inr config →
       ∃ i, config !! CONF_ID = Some (VID i)
            ∧ type i = USBCommunicationComponent).
Proof.
  split_and!; try done.
  intros raw config (i & ? & ? & _)%validated_has_id. eauto.
Qed.

(** C3: the schema written in the module has exactly one entry, the
    generated identifier declaring a [USBCommunicationComponent];
    every other entry of [CONFIG_SCHEMA] is an entry of
    [COMPONENT_SCHEMA], and a configuration with any further key is
    refused. *)
Theorem CONFIG_SCHEMA_one_own_option :
  own_schema = [ (GenerateID, declare_id USBCommunicationComponent) ]
  ∧ schema_keys own_schema = [CONF_ID]
  ∧ CONFIG_SCHEMA = own_schema ++ COMPONENT_SCHEMA
  ∧ schema_keys CONFIG_SCHEMA = CONF_ID :: schema_keys COMPONENT_SCHEMA
  ∧ (∀ (raw : Config) k,
       is_Some (raw !! k) → k ≠ CONF_ID → k ∉ schema_keys COMPONENT_SCHEMA →
       validate CONFIG_SCHEMA raw = inl ExtraKeysNotAllowed).
Proof.
  split_and!; try done.
  - apply CONFIG_SCHEMA_entries.
  - by rewrite CONFIG_SCHEMA_entries.
  - intros raw k Hk Hne Hnot. unfold validate.
    rewrite bool_decide_eq_false_2; [done|].
    rewrite CONFIG_SCHEMA_entries. simpl. intros Hsub.
    apply elem_of_dom in Hk. apply Hsub in Hk.
    apply elem_of_union in Hk as [?%elem_of_singleton|?%elem_of_list_to_set];
      done.
Qed.

End ModuleFacts.

(** C4: the module's [DEPENDENCIES] is the empty list: it names no
    other component. *)
Theorem DEPENDENCIES_empty :
  DEPENDENCIES = [] ∧ ∀ c : string, c ∉ DEPENDENCIES.
Proof. split; [done|]. intros c. apply not_elem_of_nil. Qed.

(** * Properties of the framing engine *)

Section FramingFacts.
Context `{Framing}.

Lemma feed_app e xs ys :
  feed e (xs ++ ys) =
    let '(e1, o1) := feed e xs in
    let '(e2, o2) := feed e1 ys in
    (e2, o1 ++ o2).
Proof.
  revert e. induction xs as [|b xs IH]; intros e; simpl.
  - by destruct (feed e ys).
  - destruct (step e b) as [e1 out]. rewrite IH.
    destruct (feed e1 xs) as [e2 o1], (feed e2 ys) as [e3 o2].
    by destruct out.
Qed.

(** The payload phase: the engine stays in [READ_PAYLOAD] until the
    declared number of bytes has arrived, dispatching nothing. *)
Lemma feed_payload len ce oe p :
  ∀ buf, p ≠ [] →
    length buf + length p = Byte.to_nat len →
    feed (MkEngine READ_PAYLOAD len buf ce oe) p
    = (MkEngine READ_CHECKSUM len (buf ++ p) ce oe, []).
Proof.
  induction p as [|b p IH]; intros buf Hne Hlen; [done|].
  simpl in Hlen. cbn [feed]. unfold step, on_byte, dispatch. cbn.
  destruct (decide (length (buf ++ [b]) = Byte.to_nat len)) as [Hd|Hd];
    rewrite length_app in Hd; simpl in Hd.
  - destruct p; [done | simpl in Hlen; lia].
  - destruct p as [|b' p]; [simpl in Hlen; lia|].
    rewrite IH; [|done|rewrite length_app; simpl in *; lia].
    by rewrite <- app_assoc.
Qed.

(** A whole frame layout arriving at an engine that awaits a start
    marker: it is dispatched if the last byte is the checksum of
    length and payload, and counted as a checksum error otherwise.
    Either way the engine is back in [AWAIT_START]. *)
Lemma feed_frame_layout e len p c :
  state e = AWAIT_START →
  Byte.to_nat len = length p →
  length p ≤ MAX_FRAME_SIZE →
  feed e (START_MARKER :: len :: p ++ [c]) =
    if decide (c = checksum (len :: p))
    then (MkEngine AWAIT_START len [] (checksum_errors e) (oversize_errors e),
          [MkFrame len p c])
    else (MkEngine AWAIT_START len [] (S (checksum_errors e)) (oversize_errors e),
          []).
Proof.
  intros Hst Hlen Hmax. destruct e as [st d buf ce oe]. simpl in Hst. subst st.
  cbn [feed]. unfold step at 1, on_byte, dispatch. cbn.
  rewrite decide_True by done. cbn.
  unfold step at 1, on_byte, dispatch. cbn.
  rewrite decide_False by lia.
  destruct p as [|b p].
  - rewrite decide_True by done. cbn.
    unfold step, on_byte, dispatch. cbn.
    by destruct (decide (c = checksum [len])).
  - rewrite decide_False by (simpl in Hlen; lia). cbn [state].
    rewrite feed_app, (feed_payload len ce oe (b :: p) []) by done.
    cbn. unfold step, on_byte, dispatch. cbn.
    by destruct (decide (c = checksum (len :: b :: p))).
Qed.

Lemma valid_frame_spec F :
  valid_frame F = true ↔
    Byte.to_nat (length_field F) = length (payload F)
    ∧ length (payload F) ≤ MAX_FRAME_SIZE
    ∧ checksum_field F = checksum (length_field F :: payload F).
Proof.
  unfold valid_frame. rewrite !andb_true_iff, !bool_decide_eq_true. tauto.
Qed.

(** Feeding the encoding of a valid frame to an engine awaiting a
    start marker dispatches that frame and nothing else. *)
Lemma feed_encode e F :
  state e = AWAIT_START →
  valid_frame F = true →
  feed e (encode F)
  = (MkEngine AWAIT_START (length_field F) [] (checksum_errors e) (oversize_errors e),
     [F]).
Proof.
  intros Hst (Hlen & Hmax & Hck)%valid_frame_spec. unfold encode.
  rewrite feed_frame_layout, decide_True by done. by destruct F.
Qed.

(** A frame built from a payload is valid and carries that payload. *)
Lemma make_frame_valid p F :
  make_frame p = Some F → valid_frame F = true ∧ payload F = p.
Proof.
  unfold make_frame. destruct (Byte.of_nat (length p)) as [len|] eqn:Hlen; [|done].
  case_bool_decide; [|done]. intros [= <-]. split; [|done].
  apply valid_frame_spec. simpl. split_and!; try done.
  by apply Byte.to_of_nat.
Qed.

(** A frame built from a payload decodes to itself. *)
Lemma decode_make_frame p F :
  make_frame p = Some F → decode (encode F) = [F] ∧ payload F = p.
Proof.
  intros [HF Hp]%make_frame_valid. split; [|done].
  unfold decode. by rewrite feed_encode.
Qed.

(** C5: for every valid frame [F], decoding the encoding of [F]
    yields [F] again, and only [F]. *)
Theorem decode_encode F :
  valid_frame F = true → decode (encode F) = [F].
Proof.
  intros HF. unfold decode. by rewrite feed_encode.
Qed.

(** C6: when a frame arrives with a corrupted checksum byte, the
    engine dispatches nothing for it, counts one checksum error and is
    back in [AWAIT_START]; the valid frame that follows is then decoded,
    and the rest of the stream is processed from [AWAIT_START]. *)
Theorem resync_after_bad_checksum e F1 F2 c rest :
  state e = AWAIT_START →
  valid_frame F1 = true →
  valid_frame F2 = true →
  c ≠ checksum_field F1 →
  let corrupted := encode (MkFrame (length_field F1) (payload F1) c) in
  let e1 := (feed e corrupted).1 in
  let e2 := (feed e (corrupted ++ encode F2)).1 in
  (feed e corrupted).2 = []
  ∧ state e1 = AWAIT_START
  ∧ checksum_errors e1 = S (checksum_errors e)
  ∧ (feed e (corrupted ++ encode F2)).2 = [F2]
  ∧ state e2 = AWAIT_START
  ∧ (feed e (corrupted ++ encode F2 ++ rest)).2 = F2 :: (feed e2 rest).2.
Proof.
  intros Hst (Hlen & Hmax & Hck)%valid_frame_spec HF2 Hc. cbn zeta.
  assert (feed e (encode (MkFrame (length_field F1) (payload F1) c))
          = (MkEngine AWAIT_START (length_field F1) []
                      (S (checksum_errors e)) (oversize_errors e), [])) as Hbad.
  { unfold encode. cbn [length_field payload checksum_field].
    rewrite feed_frame_layout, decide_False by congruence. done. }
  rewrite Hbad. cbn [fst snd].
  rewrite !feed_app, Hbad. cbn zeta beta iota.
  rewrite feed_encode by done. cbn [fst snd app state].
  split_and!; try done.
  rewrite feed_app, feed_encode by done. cbn [checksum_errors oversize_errors].
  by destruct (feed _ rest).
Qed.

End FramingFacts.

(** * Properties of the send queue *)

(** C7: a queue already at capacity answers [enqueue] with [QueueFull]
    and is returned as it was: same pending frames in the same order,
    same cursor, same capacity. *)
Theorem enqueue_full_rejected q F :
  capacity q ≤ length (pending q) →
  enqueue q F = (QueueFull, q)
  ∧ pending (enqueue q F).2 = pending q
  ∧ cursor (enqueue q F).2 = cursor q.
Proof.
  intros Hfull. unfold enqueue. by rewrite decide_True.
Qed.

(** Below capacity the frame is appended behind the pending ones. *)
Lemma enqueue_accepted q F :
  length (pending q) < capacity q →
  enqueue q F = (Success, MkSendQueue (capacity q) (pending q ++ [F]) (cursor q)).
Proof.
  intros Hroom. unfold enqueue. rewrite decide_False; [done|lia].
Qed.

Section SendFacts.
Context `{Framing}.

Lemma encode_length F : length (encode F) = S (S (S (length (payload F)))).
Proof. unfold encode. simpl. rewrite length_app. simpl. lia. Qed.

Lemma cursor_inside_start frames : cursor_inside frames 0.
Proof.
  destruct frames as [|F ?]; [done|].
  unfold cursor_inside. rewrite encode_length. lia.
Qed.

(** One drain writes the first [room t] unsent bytes, in order, and
    leaves the others unsent. *)
Lemma drain_spec frames :
  ∀ cur t fs' cur' t',
    cursor_inside frames cur →
    drain frames cur t = (fs', cur', t') →
    wire t' = wire t ++ take (room t) (remaining frames cur)
    ∧ remaining fs' cur' = drop (room t) (remaining frames cur)
    ∧ cursor_inside fs' cur'.
Proof.
  unfold remaining.
  induction frames as [|F rest IH]; intros cur t fs' cur' t' Hcur Hd.
  - simpl in *. simplify_eq. simpl.
    by rewrite drop_nil, take_nil, app_nil_r.
  - unfold cursor_inside in Hcur. cbn [drain] in Hd. unfold write in Hd.
    rewrite length_drop in Hd. rewrite fmap_cons, concat_cons.
    rewrite (drop_app_le (encode F)) by lia.
    set (A := drop cur (encode F)) in *.
    assert (length A = length (encode F) - cur) as HA
      by (unfold A; by rewrite length_drop).
    destruct (decide (cur + room t `min` (length (encode F) - cur) = length (encode F)))
      as [Hfin|Hpart].
    + assert (length A ≤ room t) as Hle by lia.
      apply IH in Hd as (Hw & Hr & Hin); [|apply cursor_inside_start].
      cbn [wire room] in Hw, Hr. rewrite drop_0 in Hw, Hr.
      rewrite take_ge in Hw by lia.
      replace (room t `min` (length (encode F) - cur)) with (length A) in Hw, Hr by lia.
      split_and!; [| |done].
      * by rewrite Hw, take_app_ge, <- app_assoc.
      * by rewrite Hr, drop_app_ge.
    + assert (room t < length A) as Hlt by lia.
      simplify_eq. cbn [wire].
      replace (room t `min` (length (encode F) - cur)) with (room t) by lia.
      split_and!.
      * by rewrite take_app_le by lia.
      * rewrite fmap_cons, concat_cons, <- drop_drop.
        by rewrite (drop_app_le (encode F)) by lia.
      * unfold cursor_inside. lia.
Qed.

Lemma poll_spec r q t :
  cursor_inside (pending q) (cursor q) →
  wire (poll r q t).2 = wire t ++ take r (unsent q)
  ∧ unsent (poll r q t).1 = drop r (unsent q)
  ∧ cursor_inside (pending (poll r q t).1) (cursor (poll r q t).1).
Proof.
  intros Hin. unfold poll, unsent.
  destruct (drain _ _ _) as [[fs' cur'] t'] eqn:Hd.
  by apply drain_spec in Hd.
Qed.

(** Over any number of poll cycles the link receives the unsent bytes
    in order, each once: as many as it accepted in total. *)
Lemma polls_spec readies :
  ∀ q t,
    cursor_inside (pending q) (cursor q) →
    wire (polls readies q t).2 = wire t ++ take (sum_list readies) (unsent q)
    ∧ unsent (polls readies q t).1 = drop (sum_list readies) (unsent q).
Proof.
  induction readies as [|r rs IH]; intros q t Hin; simpl.
  - by rewrite app_nil_r.
  - destruct (poll_spec r q t Hin) as (Hw & Hr & Hin').
    destruct (poll r q t) as [q1 t1]. simpl in *.
    destruct (IH q1 t1 Hin') as (Hw' & Hr').
    rewrite Hw', Hr', Hw, Hr, drop_drop, <- app_assoc, take_take_drop.
    done.
Qed.

(** C8: when the link accepts only [N] bytes of a frame of more than
    [N] bytes in one poll, the frame stays at the head of the queue
    with the cursor at [N]; what the following polls put on the link
    starts at byte [N] of the frame, and once they have accepted the
    remaining [length - N] bytes the link holds the frame exactly once,
    followed only by bytes of later frames. *)
Theorem partial_write_resumes F rest cap t N :
  N < length (encode F) →
  let q := MkSendQueue cap (F :: rest) 0 in
  let q1 := (poll N q t).1 in
  let t1 := (poll N q t).2 in
  let later := concat (encode <$> rest) in
  pending q1 = F :: rest
  ∧ cursor q1 = N
  ∧ wire t1 = wire t ++ take N (encode F)
  ∧ length (drop N (encode F)) = length (encode F) - N
  ∧ (∀ M, wire (poll M q1 t1).2 = wire t1 ++ take M (drop N (encode F) ++ later))
  ∧ (∀ readies,
       length (encode F) - N ≤ sum_list readies →
       wire (polls readies q1 t1).2
       = wire t ++ encode F
         ++ take (sum_list readies - (length (encode F) - N)) later).
Proof.
  intros HN. cbn zeta.
  assert (poll N (MkSendQueue cap (F :: rest) 0) t
          = (MkSendQueue cap (F :: rest) N,
             MkTransport (wire t ++ take N (encode F)) 0)) as Hp.
  { unfold poll. cbn [pending cursor drain]. unfold write.
    cbn [room wire]. rewrite drop_0.
    rewrite decide_False by lia.
    rewrite !(Nat.min_l N) by lia.
    by rewrite Nat.sub_diag. }
  rewrite Hp. cbn [fst snd pending cursor wire].
  assert (unsent (MkSendQueue cap (F :: rest) N)
          = drop N (encode F) ++ concat (encode <$> rest)) as Hu.
  { unfold unsent, remaining. cbn [pending cursor].
    rewrite fmap_cons, concat_cons. apply drop_app_le. lia. }
  assert (cursor_inside (pending (MkSendQueue cap (F :: rest) N))
                        (cursor (MkSendQueue cap (F :: rest) N))) as Hin
    by done.
  split_and!; try done.
  - by rewrite length_drop.
  - intros M. destruct (poll_spec M _ (MkTransport (wire t ++ take N (encode F)) 0) Hin)
      as (Hw & _). by rewrite Hw, Hu.
  - intros readies Hsum.
    destruct (polls_spec readies _ (MkTransport (wire t ++ take N (encode F)) 0) Hin)
      as (Hw & _).
    rewrite Hw, Hu. cbn [wire].
    rewrite take_app_ge by (rewrite length_drop; lia).
    rewrite length_drop, <- !app_assoc.
    by rewrite (app_assoc (take N _)), take_drop.
Qed.

End SendFacts.

(** * The statements at concrete inputs *)

Lemma counting_framework_no_raise : no_raise counting_framework.
Proof. intros R e s. destruct e; simpl; eauto. Qed.

Lemma to_code_instantiates_then_registers_witness :
  validate (@CONFIG_SCHEMA sample_host) ∅ = inr config_plain
  ∧ no_raise counting_framework
  ∧ ∃ i var s1 r s2,
      config_plain !! "id" = Some (VID i)
      ∧ counting_framework _ (new_Pvariable (VID i)) 0 = (inr var, s1)
      ∧ counting_framework _ (register_component var config_plain) s1 = (inr r, s2)
      ∧ run counting_framework (@to_code sample_host nat config_plain) 0
        = (inr (), s2,
           [CallNewPvariable (VID i); CallRegisterComponent var config_plain]).
Proof.
  split_and!.
  - vm_compute. reflexivity.
  - apply counting_framework_no_raise.
  - apply (@to_code_instantiates_then_registers sample_host nat nat
             counting_framework ∅ config_plain 0).
    + vm_compute. reflexivity.
    + apply counting_framework_no_raise.
Defined.

Lemma to_code_lookup_unguarded_witness :
  (run counting_framework (@to_code sample_host nat config_plain) 0).1.1 = inr ()
  ∧ run counting_framework (@to_code sample_host nat ∅) 0
    = (inl (KeyError "id"), 0, [])
  ∧ is_Some (config_plain !! "id").
Proof.
  split_and!.
  - apply (proj1 (@to_code_lookup_unguarded sample_host nat nat
                    counting_framework config_plain 0) (VID generated_id)).
    + vm_compute. reflexivity.
    + apply counting_framework_no_raise.
  - apply (proj1 (proj2 (@to_code_lookup_unguarded sample_host nat nat
                           counting_framework ∅ 0))).
    vm_compute. reflexivity.
  - apply (proj2 (proj2 (@to_code_lookup_unguarded sample_host nat nat
                           counting_framework config_plain 0)) ∅).
    vm_compute. reflexivity.
Defined.

(** C9 as stated fails: two accepted configurations with the same
    identifier entry, one of which also sets [setup_priority], make
    [to_code] issue different registration calls, and a framework
    that honours the option generates different code. *)
Lemma to_code_output_depends_on_other_keys :
  config_plain !! @CONF_ID sample_host = config_priority !! @CONF_ID sample_host
  ∧ validate (@CONFIG_SCHEMA sample_host) ∅ = inr config_plain
  ∧ validate (@CONFIG_SCHEMA sample_host) {[ "setup_priority" := VNum 100 ]}
    = inr config_priority
  ∧ (run counting_framework (@to_code sample_host nat config_plain) 0).2
    ≠ (run counting_framework (@to_code sample_host nat config_priority) 0).2
  ∧ (run writing_framework (@to_code sample_host nat config_plain) []).1.2
    = ["new"; "register_component"]
  ∧ (run writing_framework (@to_code sample_host nat config_priority) []).1.2
    = ["new"; "set_setup_priority"; "register_component"].
Proof.
  split_and!; try (vm_compute; reflexivity).
  intros Heq.
  assert (config_plain = config_priority) as Hc.
  { vm_compute in Heq. by injection Heq. }
  apply (f_equal (lookup "setup_priority")) in Hc.
  vm_compute in Hc. discriminate Hc.
Qed.

Lemma to_code_same_subjects_witness :
  config_plain !! @CONF_ID sample_host = config_priority !! @CONF_ID sample_host
  ∧ call_subject <$> (run counting_framework (@to_code sample_host nat config_plain) 0).2
    = call_subject <$> (run counting_framework (@to_code sample_host nat config_priority) 0).2.
Proof.
  split.
  - vm_compute. reflexivity.
  - apply (proj1 (@to_code_same_subjects sample_host nat nat counting_framework
                    config_plain config_priority 0 ltac:(vm_compute; reflexivity))).
Defined.

Lemma USBCommunicationComponent_declared_witness :
  cls_name (@USBCommunicationComponent sample_host) = "USBCommunicationComponent"
  ∧ cls_namespace (@USBCommunicationComponent sample_host)
    = ["esphome"; "usb_communication"]
  ∧ ∃ i, config_plain !! "id" = Some (VID i)
         ∧ type i = @USBCommunicationComponent sample_host.
Proof.
  pose proof (@USBCommunicationComponent_declared sample_host) as (Hn & Hns & _ & Hid).
  split_and!.
  - exact Hn.
  - exact Hns.
  - apply (Hid ∅ config_plain). vm_compute. reflexivity.
Defined.

Lemma CONFIG_SCHEMA_one_own_option_witness :
  schema_keys (@CONFIG_SCHEMA sample_host) = ["id"; "setup_priority"]
  ∧ validate (@CONFIG_SCHEMA sample_host) {[ "baud_rate" := VNum 115200 ]}
    = inl ExtraKeysNotAllowed.
Proof.
  pose proof (@CONFIG_SCHEMA_one_own_option sample_host) as (_ & _ & _ & Hk & Hextra).
  split.
  - exact Hk.
  - apply (Hextra {[ "baud_rate" := VNum 115200 ]} "baud_rate").
    + vm_compute. eauto.
    + discriminate.
    + vm_compute. intros Hin. inversion Hin as [|? ? ? Hin']. inversion Hin'.
Defined.

(** The example of the specification: payload "PING" on the wire. *)
Example encode_ping :
  @make_frame sample_framing ping = Some ping_frame
  ∧ @encode sample_framing ping_frame
    = [Byte.x7e; Byte.x04; Byte.x50; Byte.x49; Byte.x4e; Byte.x47; Byte.x14].
Proof. split; vm_compute; reflexivity. Qed.

Lemma decode_encode_witness :
  @valid_frame sample_framing ping_frame = true
  ∧ @decode sample_framing (@encode sample_framing ping_frame) = [ping_frame].
Proof.
  split.
  - vm_compute. reflexivity.
  - apply (@decode_encode sample_framing ping_frame). vm_compute. reflexivity.
Defined.

Lemma resync_after_bad_checksum_witness :
  let corrupted := @encode sample_framing (MkFrame Byte.x04 ping Byte.x00) in
  (@feed sample_framing engine_init corrupted).2 = []
  ∧ state (@feed sample_framing engine_init corrupted).1 = AWAIT_START
  ∧ checksum_errors (@feed sample_framing engine_init corrupted).1 = 1
  ∧ (@feed sample_framing engine_init (corrupted ++ @encode sample_framing ok_frame)).2
    = [ok_frame].
Proof.
  pose proof (@resync_after_bad_checksum sample_framing engine_init
                ping_frame ok_frame Byte.x00 []
                eq_refl
                ltac:(vm_compute; reflexivity)
                ltac:(vm_compute; reflexivity)
                ltac:(vm_compute; discriminate))
    as (H1 & H2 & H3 & H4 & _).
  cbn zeta. split_and!.
  - exact H1.
  - exact H2.
  - exact H3.
  - exact H4.
Defined.

Lemma enqueue_full_rejected_witness :
  capacity (MkSendQueue 1 [ping_frame] 3) ≤ length (pending (MkSendQueue 1 [ping_frame] 3))
  ∧ enqueue (MkSendQueue 1 [ping_frame] 3) ok_frame
    = (QueueFull, MkSendQueue 1 [ping_frame] 3).
Proof.
  split.
  - simpl. lia.
  - apply (proj1 (enqueue_full_rejected (MkSendQueue 1 [ping_frame] 3) ok_frame
                    ltac:(simpl; lia))).
Defined.

Lemma partial_write_resumes_witness :
  3 < length (@encode sample_framing ping_frame)
  ∧ cursor (@poll sample_framing 3 (MkSendQueue 4 [ping_frame; ok_frame] 0)
              (MkTransport [] 0)).1 = 3
  ∧ wire (@poll sample_framing 3 (MkSendQueue 4 [ping_frame; ok_frame] 0)
            (MkTransport [] 0)).2
    = take 3 (@encode sample_framing ping_frame).
Proof.
  pose proof (@partial_write_resumes sample_framing ping_frame [ok_frame] 4
                (MkTransport [] 0) 3 ltac:(vm_compute; lia))
    as (_ & H2 & H3 & _).
  split_and!.
  - vm_compute. lia.
  - exact H2.
  - exact H3.
Defined.

(** * Further properties of [to_code] *)

Section ToCodeErrors.
Context `{Host} {Var St : Type} (h : Handler Var St).

(** [to_code] has no exception handler.  When [new_Pvariable] raises,
    that exception leaves [to_code] and [register_component] is never
    called; when [register_component] raises, its exception leaves
    [to_code] after the two calls.  The framework is left in the state
    the failing call produced. *)
Theorem to_code_propagates_framework_errors config v s :
  config !! CONF_ID = Some v →
  (∀ e s1, h _ (new_Pvariable v) s = (inl e, s1) →
     run h (to_code config) s = (inl e, s1, [CallNewPvariable v]))
  ∧ (∀ var s1 e s2,
       h _ (new_Pvariable v) s = (inr var, s1) →
       h _ (register_component var config) s1 = (inl e, s2) →
       run h (to_code config) s
       = (inl e, s2, [CallNewPvariable v; CallRegisterComponent var config])).
Proof.
  intros Hid. split.
  - intros e s1 E1. by rewrite (run_to_code _ _ _ s Hid), E1.
  - intros var s1 e s2 E1 E2. by rewrite (run_to_code _ _ _ s Hid), E1, E2.
Qed.

(** Whatever the framework does and whatever is stored under
    [CONF_ID], [to_code] makes no call when the key is missing, and
    otherwise calls [new_Pvariable] on the stored value as it is,
    followed by at most one [register_component], which is given the
    configuration [to_code] received. *)
Theorem to_code_call_discipline config s :
  let tr := (run h (to_code config) s).2 in
  (config !! CONF_ID = None ∧ tr = [])
  ∨ (∃ v, config !! CONF_ID = Some v
          ∧ (tr = [CallNewPvariable v]
             ∨ ∃ var, tr = [CallNewPvariable v; CallRegisterComponent var config])).
Proof.
  cbn zeta. destruct (config !! CONF_ID) as [v|] eqn:Hid.
  - right. exists v. split; [done|].
    rewrite (run_to_code _ _ _ s Hid).
    destruct (h _ (new_Pvariable v) s) as [[e|var] s1]; [by left|].
    right. exists var.
    by destruct (h _ (register_component var config) s1) as [[?|?] ?].
  - left. by rewrite (run_to_code_missing _ _ s Hid).
Qed.

(** [to_code] returns normally exactly when the key is present and
    both framework calls return. *)
Theorem to_code_returns_iff config s :
  (run h (to_code config) s).1.1 = inr ()
  ↔ ∃ v var s1 r s2,
      config !! CONF_ID = Some v
      ∧ h _ (new_Pvariable v) s = (inr var, s1)
      ∧ h _ (register_component var config) s1 = (inr r, s2).
Proof.
  split.
  - destruct (config !! CONF_ID) as [v|] eqn:Hid.
    + rewrite (run_to_code _ _ _ s Hid).
      destruct (h _ (new_Pvariable v) s) as [[e|var] s1] eqn:E1; [done|].
      destruct (h _ (register_component var config) s1) as [[e|r] s2] eqn:E2;
        [done|].
      intros _. by exists v, var, s1, r, s2.
    + by rewrite (run_to_code_missing _ _ s Hid).
  - intros (v & var & s1 & r & s2 & Hid & E1 & E2).
    by rewrite (run_to_code _ _ _ s Hid), E1, E2.
Qed.

End ToCodeErrors.

(** * Further properties of [CONFIG_SCHEMA] *)

Section SchemaFacts.
Context `{Host}.

(** Validating entries only ever adds keys of the schema. *)
Lemma validate_entries_dom data s :
  ∀ out out',
    validate_entries data s out = inr out' →
    dom out' ⊆ dom out ∪ list_to_set (schema_keys s).
Proof.
  induction s as [|e s IH]; simpl; intros out out' Hv.
  - simplify_eq. set_solver.
  - destruct (validate_entry data e out) as [|out1] eqn:He; [done|].
    apply IH in Hv.
    assert (dom out1 ⊆ dom out ∪ {[marker_key e.1]}) as Hd.
    { revert He. unfold validate_entry, validate_value.
      repeat case_match; intros; simplify_eq;
        rewrite ?dom_insert_L; set_solver. }
    set_solver.
Qed.

(** Entries do not look at keys that are not theirs. *)
Lemma validate_entries_delete data s k :
  k ∉ schema_keys s →
  ∀ out, validate_entries (delete k data) s out = validate_entries data s out.
Proof.
  induction s as [|e s IH]; simpl; intros Hk out; [done|].
  apply not_elem_of_cons in Hk as [Hne Hk].
  assert (validate_entry (delete k data) e out = validate_entry data e out) as ->.
  { unfold validate_entry. by rewrite lookup_delete_ne. }
  destruct (validate_entry data e out); [done|]. by apply IH.
Qed.

(** A key that is in the output already, and is not the schema's,
    stays as it is. *)
Lemma validate_entries_insert data s k v :
  k ∉ schema_keys s →
  ∀ out,
    validate_entries data s (<[k := v]> out)
    = match validate_entries data s out with
      | inl err => inl err
      | inr o => inr (<[k := v]> o)
      end.
Proof.
  induction s as [|e s IH]; simpl; intros Hk out; [done|].
  apply not_elem_of_cons in Hk as [Hne Hk].
  assert (validate_entry data e (<[k := v]> out)
          = match validate_entry data e out with
            | inl err => inl err
            | inr o => inr (<[k := v]> o)
            end) as ->.
  { unfold validate_entry, validate_value.
    repeat case_match; simplify_eq; try done;
      by rewrite insert_insert_ne. }
  destruct (validate_entry data e out); [done|]. by apply IH.
Qed.

(** The identifier entry of a configuration as [CONFIG_SCHEMA] sees
    it: the supplied value, or the default [None]. *)
Lemma validate_CONFIG_SCHEMA raw :
  validate CONFIG_SCHEMA raw
  = if bool_decide (dom raw ⊆ {[CONF_ID]} ∪ list_to_set (schema_keys COMPONENT_SCHEMA))
    then match declare_id USBCommunicationComponent (default VNone (raw !! CONF_ID)) with
         | Some y => validate_entries raw COMPONENT_SCHEMA (<[CONF_ID := y]> ∅)
         | None => inl (InvalidValue CONF_ID)
         end
    else inl ExtraKeysNotAllowed.
Proof.
  unfold validate. rewrite CONFIG_SCHEMA_entries. simpl.
  case_bool_decide; [|done].
  unfold validate_entry, validate_value, GenerateID. simpl.
  destruct (raw !! CONF_ID) as [x|]; simpl; [|done].
  by destruct (declare_id USBCommunicationComponent x).
Qed.

End SchemaFacts.

Section SchemaProperties.
Context `{Host}.

Lemma validate_entry_mono data e out out' :
  validate_entry data e out = inr out' → dom out ⊆ dom out'.
Proof.
  unfold validate_entry, validate_value.
  repeat case_match; intros; simplify_eq; rewrite ?dom_insert_L; set_solver.
Qed.

Lemma validate_entries_mono data s :
  ∀ out out', validate_entries data s out = inr out' → dom out ⊆ dom out'.
Proof.
  induction s as [|e s IH]; simpl; intros out out' Hv.
  - by simplify_eq.
  - destruct (validate_entry data e out) as [|out1] eqn:He; [done|].
    apply validate_entry_mono in He. apply IH in Hv. set_solver.
Qed.

(** A key the user set, and the schema knows, is in the result. *)
Lemma validate_entries_keeps data s k :
  k ∈ schema_keys s →
  is_Some (data !! k) →
  ∀ out out', validate_entries data s out = inr out' → k ∈ dom out'.
Proof.
  induction s as [|e s IH]; simpl; intros Hk Hdata out out' Hv.
  - by apply elem_of_nil in Hk.
  - destruct (validate_entry data e out) as [|out1] eqn:He; [done|].
    apply elem_of_cons in Hk as [->|Hk]; [|by eapply IH].
    apply validate_entries_mono in Hv. apply Hv.
    destruct Hdata as [x Hx]. revert He.
    unfold validate_entry, validate_value. rewrite Hx.
    case_match; intros; simplify_eq. rewrite dom_insert_L. set_solver.
Qed.

(** When the user gives no identifier, or an explicit [None], an
    accepted configuration carries a generated one: an identifier
    without a name yet, declaring a [USBCommunicationComponent]. *)
Theorem CONFIG_SCHEMA_generates_id raw cfg :
  raw !! CONF_ID = None ∨ raw !! CONF_ID = Some VNone →
  validate CONFIG_SCHEMA raw = inr cfg →
  cfg !! CONF_ID = Some (VID (MkID None true USBCommunicationComponent)).
Proof.
  intros Hid. rewrite validate_CONFIG_SCHEMA. case_bool_decide; [|done].
  assert (default VNone (raw !! CONF_ID) = VNone) as ->
    by (by destruct Hid as [-> | ->]).
  simpl. intros Hv.
  rewrite (validate_entries_other _ _ _ COMPONENT_SCHEMA_no_id _ _ Hv).
  apply lookup_insert_eq.
Qed.

(** When the user gives an identifier, the framework's name check
    decides: a refused name makes the whole configuration invalid, an
    accepted one becomes the name of the declared identifier. *)
Theorem CONFIG_SCHEMA_supplied_id raw v :
  raw !! CONF_ID = Some v →
  v ≠ VNone →
  match validate_id_name v with
  | Some name =>
      ∀ cfg, validate CONFIG_SCHEMA raw = inr cfg →
             cfg !! CONF_ID
             = Some (VID (MkID (Some name) true USBCommunicationComponent))
  | None =>
      validate CONFIG_SCHEMA raw = inl ExtraKeysNotAllowed
      ∨ validate CONFIG_SCHEMA raw = inl (InvalidValue CONF_ID)
  end.
Proof.
  intros Hid Hv. rewrite validate_CONFIG_SCHEMA, Hid. simpl.
  assert (declare_id USBCommunicationComponent v
          = match validate_id_name v with
            | Some name =>
                Some (VID (MkID (Some name) true USBCommunicationComponent))
            | None => None
            end) as ->
    by (by destruct v).
  destruct (validate_id_name v) as [name|].
  - intros cfg. case_bool_decide; [|done]. intros Hval.
    rewrite (validate_entries_other _ _ _ COMPONENT_SCHEMA_no_id _ _ Hval).
    apply lookup_insert_eq.
  - case_bool_decide; auto.
Qed.

(** An accepted configuration has every key the user set, the
    identifier, and no key outside the identifier and the keys of
    [COMPONENT_SCHEMA]. *)
Theorem CONFIG_SCHEMA_accepted_keys raw cfg :
  validate CONFIG_SCHEMA raw = inr cfg →
  CONF_ID ∈ dom cfg
  ∧ dom raw ⊆ dom cfg
  ∧ dom cfg ⊆ {[CONF_ID]} ∪ list_to_set (schema_keys COMPONENT_SCHEMA).
Proof.
  rewrite validate_CONFIG_SCHEMA. case_bool_decide as Hsub; [|done].
  destruct (declare_id _ _) as [y|]; [|done]. intros Hv.
  pose proof (validate_entries_mono _ _ _ _ Hv) as Hmono.
  pose proof (validate_entries_dom _ _ _ _ Hv) as Hdom.
  rewrite dom_insert_L, dom_empty_L in Hmono, Hdom.
  split_and!.
  - set_solver.
  - intros k Hk. pose proof (Hsub k Hk) as Hin.
    apply elem_of_union in Hin as [->%elem_of_singleton|Hin%elem_of_list_to_set].
    + set_solver.
    + apply elem_of_dom in Hk. by eapply validate_entries_keeps.
  - set_solver.
Qed.

(** [extend] composes the two schemas: [CONFIG_SCHEMA] accepts a
    configuration exactly when [declare_id] accepts its identifier
    entry and [COMPONENT_SCHEMA] accepts the other entries, and the
    result is the result of [COMPONENT_SCHEMA] with the identifier
    added. *)
Theorem CONFIG_SCHEMA_factors raw cfg :
  validate CONFIG_SCHEMA raw = inr cfg
  ↔ ∃ y rest,
      declare_id USBCommunicationComponent (default VNone (raw !! CONF_ID)) = Some y
      ∧ validate COMPONENT_SCHEMA (delete CONF_ID raw) = inr rest
      ∧ cfg = <[CONF_ID := y]> rest.
Proof.
  rewrite validate_CONFIG_SCHEMA. unfold validate.
  rewrite (validate_entries_delete _ _ _ COMPONENT_SCHEMA_no_id).
  assert (dom raw ⊆ {[CONF_ID]} ∪ list_to_set (schema_keys COMPONENT_SCHEMA)
          ↔ dom (delete CONF_ID raw) ⊆ list_to_set (schema_keys COMPONENT_SCHEMA))
    as Hdom.
  { rewrite dom_delete_L. split; intros Hs x Hx.
    - set_solver.
    - destruct (decide (x = CONF_ID)); set_solver. }
  split.
  - case_bool_decide as Hsub; [|done].
    destruct (declare_id _ _) as [y|]; [|done].
    rewrite (validate_entries_insert _ _ _ _ COMPONENT_SCHEMA_no_id).
    destruct (validate_entries raw COMPONENT_SCHEMA ∅) as [|rest] eqn:Hr; [done|].
    intros [= <-]. exists y, rest.
    rewrite bool_decide_eq_true_2 by by apply Hdom. done.
  - intros (y & rest & -> & Hr & ->).
    case_bool_decide as Hsub; [|done].
    rewrite bool_decide_eq_true_2 by by apply Hdom.
    rewrite (validate_entries_insert _ _ _ _ COMPONENT_SCHEMA_no_id).
    by rewrite Hr.
Qed.

End SchemaProperties.

(** * The further statements at concrete inputs *)

Lemma to_code_propagates_framework_errors_witness :
  config_plain !! @CONF_ID sample_host = Some (VID generated_id)
  ∧ run failing_framework (@to_code sample_host nat config_plain) 0
    = (inl (HostError "no such class"), 1, [CallNewPvariable (VID generated_id)])
  ∧ run refusing_framework (@to_code sample_host nat config_plain) 0
    = (inl (HostError "not a component"), 1,
       [CallNewPvariable (VID generated_id); CallRegisterComponent 0 config_plain]).
Proof.
  assert (config_plain !! @CONF_ID sample_host = Some (VID generated_id)) as Hid
    by (vm_compute; reflexivity).
  split_and!.
  - exact Hid.
  - apply (proj1 (@to_code_propagates_framework_errors sample_host nat nat
                    failing_framework config_plain (VID generated_id) 0 Hid)).
    reflexivity.
  - apply (proj2 (@to_code_propagates_framework_errors sample_host nat nat
                    refusing_framework config_plain (VID generated_id) 0 Hid)
             0 1).
    + reflexivity.
    + reflexivity.
Defined.

Lemma to_code_returns_iff_witness :
  (run counting_framework (@to_code sample_host nat config_plain) 0).1.1 = inr ()
  ∧ (run refusing_framework (@to_code sample_host nat config_plain) 0).1.1 ≠ inr ().
Proof.
  split.
  - apply (proj2 (@to_code_returns_iff sample_host nat nat counting_framework
                    config_plain 0)).
    exists (VID generated_id), 0, 1, 0, 1.
    split_and!; [vm_compute; reflexivity | reflexivity | reflexivity].
  - intros Hret.
    apply (proj1 (@to_code_returns_iff sample_host nat nat refusing_framework
                    config_plain 0)) in Hret
      as (v & var & s1 & r & s2 & _ & E1 & E2).
    simpl in E1. injection E1 as <- <-. simpl in E2. discriminate E2.
Defined.

Lemma CONFIG_SCHEMA_generates_id_witness :
  validate (@CONFIG_SCHEMA sample_host) ∅ = inr config_plain
  ∧ config_plain !! "id"
    = Some (VID (MkID None true (@USBCommunicationComponent sample_host))).
Proof.
  assert (validate (@CONFIG_SCHEMA sample_host) ∅ = inr config_plain) as Hv
    by (vm_compute; reflexivity).
  split; [exact Hv|].
  apply (@CONFIG_SCHEMA_generates_id sample_host ∅ config_plain); [|exact Hv].
  left. vm_compute. reflexivity.
Defined.

Lemma CONFIG_SCHEMA_supplied_id_witness :
  (∀ cfg,
     validate (@CONFIG_SCHEMA sample_host) {[ "id" := VStr "usb" ]} = inr cfg →
     cfg !! "id"
     = Some (VID (MkID (Some "usb") true (@USBCommunicationComponent sample_host))))
  ∧ (validate (@CONFIG_SCHEMA sample_host) {[ "id" := VNum 7 ]}
     = inl ExtraKeysNotAllowed
     ∨ validate (@CONFIG_SCHEMA sample_host) {[ "id" := VNum 7 ]}
       = inl (InvalidValue "id")).
Proof.
  split.
  - apply (@CONFIG_SCHEMA_supplied_id sample_host {[ "id" := VStr "usb" ]}
             (VStr "usb")).
    + vm_compute. reflexivity.
    + discriminate.
  - apply (@CONFIG_SCHEMA_supplied_id sample_host {[ "id" := VNum 7 ]} (VNum 7)).
    + vm_compute. reflexivity.
    + discriminate.
Defined.

Lemma CONFIG_SCHEMA_accepted_keys_witness :
  validate (@CONFIG_SCHEMA sample_host) {[ "setup_priority" := VNum 100 ]}
  = inr config_priority
  ∧ "id" ∈ dom config_priority
  ∧ dom ({[ "setup_priority" := VNum 100 ]} : Config) ⊆ dom config_priority.
Proof.
  assert (validate (@CONFIG_SCHEMA sample_host) {[ "setup_priority" := VNum 100 ]}
          = inr config_priority) as Hv
    by (vm_compute; reflexivity).
  destruct (@CONFIG_SCHEMA_accepted_keys sample_host _ _ Hv) as (H1 & H2 & _).
  split_and!.
  - exact Hv.
  - exact H1.
  - exact H2.
Defined.

Lemma CONFIG_SCHEMA_factors_witness :
  validate (@CONFIG_SCHEMA sample_host) {[ "setup_priority" := VNum 100 ]}
  = inr config_priority
  ∧ ∃ y rest,
      validate (@COMPONENT_SCHEMA sample_host)
               (delete "id" ({[ "setup_priority" := VNum 100 ]} : Config))
      = inr rest
      ∧ config_priority = <[ "id" := y ]> rest.
Proof.
  assert (validate (@CONFIG_SCHEMA sample_host) {[ "setup_priority" := VNum 100 ]}
          = inr config_priority) as Hv
    by (vm_compute; reflexivity).
  split; [exact Hv|].
  destruct (proj1 (@CONFIG_SCHEMA_factors sample_host _ _) Hv)
    as (y & rest & _ & Hr & Hc).
  by exists y, rest.
Defined.
